(** * OSE Advisory CLI: the constraint record, the interview and the mock
      blueprint generator of [cli/main.py]

    The development embeds [ServiceConstraints] and [InteractiveAdvisor]
    of [src/ose-cli/cli/main.py] and proves the properties the
    specification states about them.

    Conventions of the embedding:
    - Python [str] is [string], exact on ASCII text: [lower], [isalnum],
      [isdigit] and [int] take the characters above 127 for caseless symbols
      that are neither letters nor digits, where Python follows Unicode; a
      statement that depends on the difference carries the hypothesis
      [ascii_text];
    - Python [int] is [Z] (unbounded);
    - Python [float] is the binary64 type [float] of the kernel, so that a
      literal such as [0.92] denotes the same double as in Python;
    - a dict literal with fixed keys that is only read by key is a record
      ([patterns], [artifacts], the blueprint); the dict built by [to_dict]
      is a finite map from keys to tagged values;
    - [questionary] prompts read their answers from a script; a prompt
      cancelled from the keyboard, for which questionary returns [None], is
      not modelled; terminal output through [click.echo] does not reach the
      state and is left out, except for the rationale printed by the keyword
      branch. *)

From Stdlib Require Import ZArith List Bool Ascii String Floats Sorted Permutation Lia.
From stdpp Require Import base option strings gmap.

Import ListNotations.
Local Open Scope string_scope.
Local Open Scope Z_scope.

(** ** ServiceConstraints *)

Record ServiceConstraints := mkServiceConstraints {
  service_name : string;
  service_type : string;
  throughput_tps : Z;
  latency_p99_ms : Z;
  consistency_model : string;
  integrations : list string;
  data_volume_gb : float;
  team_size : Z;
  deployment_target : string
}.

(** [ServiceConstraints.__init__] *)
Definition ServiceConstraints_init : ServiceConstraints :=
  {| service_name := "";
     service_type := "";
     throughput_tps := 0;
     latency_p99_ms := 0;
     consistency_model := "";
     integrations := [];
     data_volume_gb := 0%float;
     team_size := 0;
     deployment_target := "kubernetes" |}.

(** Values stored in the dict returned by [to_dict]. *)
Inductive value :=
| VStr (s : string)
| VInt (z : Z)
| VFloat (f : float)
| VList (l : list string).

(** [ServiceConstraints.to_dict]: the dict literal, one binding per key. *)
Definition to_dict (c : ServiceConstraints) : gmap string value :=
  list_to_map
    [ ("service_name", VStr (service_name c));
      ("service_type", VStr (service_type c));
      ("throughput_tps", VInt (throughput_tps c));
      ("latency_p99_ms", VInt (latency_p99_ms c));
      ("consistency_model", VStr (consistency_model c));
      ("integrations", VList (integrations c));
      ("data_volume_gb", VFloat (data_volume_gb c));
      ("team_size", VInt (team_size c));
      ("deployment_target", VStr (deployment_target c)) ].

(** Truth value of a [str]: only the empty string is falsy. *)
Definition truthy (s : string) : bool :=
  match s with
  | EmptyString => false
  | String _ _ => true
  end.

(** The builtin [all] on a list of truth values. *)
Definition py_all (l : list bool) : bool := forallb (fun b => b) l.

(** [ServiceConstraints.is_complete] *)
Definition is_complete (c : ServiceConstraints) : bool :=
  py_all
    [ truthy (service_name c);
      truthy (service_type c);
      0 <? throughput_tps c;
      0 <? latency_p99_ms c;
      truthy (consistency_model c) ].

(** Attribute assignment [constraints.<field> = v]. *)
Inductive field :=
| F_service_name | F_service_type | F_throughput_tps | F_latency_p99_ms
| F_consistency_model | F_integrations | F_data_volume_gb | F_team_size
| F_deployment_target.

Inductive assignment :=
| Set_service_name (v : string)
| Set_service_type (v : string)
| Set_throughput_tps (v : Z)
| Set_latency_p99_ms (v : Z)
| Set_consistency_model (v : string)
| Set_integrations (v : list string)
| Set_data_volume_gb (v : float)
| Set_team_size (v : Z)
| Set_deployment_target (v : string).

#[global] Instance field_eq_dec : EqDecision field.
Proof. solve_decision. Defined.

Definition field_of (a : assignment) : field :=
  match a with
  | Set_service_name _ => F_service_name
  | Set_service_type _ => F_service_type
  | Set_throughput_tps _ => F_throughput_tps
  | Set_latency_p99_ms _ => F_latency_p99_ms
  | Set_consistency_model _ => F_consistency_model
  | Set_integrations _ => F_integrations
  | Set_data_volume_gb _ => F_data_volume_gb
  | Set_team_size _ => F_team_size
  | Set_deployment_target _ => F_deployment_target
  end.

Definition assign (c : ServiceConstraints) (a : assignment) : ServiceConstraints :=
  match a with
  | Set_service_name v =>
      mkServiceConstraints v (service_type c) (throughput_tps c) (latency_p99_ms c)
        (consistency_model c) (integrations c) (data_volume_gb c) (team_size c)
        (deployment_target c)
  | Set_service_type v =>
      mkServiceConstraints (service_name c) v (throughput_tps c) (latency_p99_ms c)
        (consistency_model c) (integrations c) (data_volume_gb c) (team_size c)
        (deployment_target c)
  | Set_throughput_tps v =>
      mkServiceConstraints (service_name c) (service_type c) v (latency_p99_ms c)
        (consistency_model c) (integrations c) (data_volume_gb c) (team_size c)
        (deployment_target c)
  | Set_latency_p99_ms v =>
      mkServiceConstraints (service_name c) (service_type c) (throughput_tps c) v
        (consistency_model c) (integrations c) (data_volume_gb c) (team_size c)
        (deployment_target c)
  | Set_consistency_model v =>
      mkServiceConstraints (service_name c) (service_type c) (throughput_tps c)
        (latency_p99_ms c) v (integrations c) (data_volume_gb c) (team_size c)
        (deployment_target c)
  | Set_integrations v =>
      mkServiceConstraints (service_name c) (service_type c) (throughput_tps c)
        (latency_p99_ms c) (consistency_model c) v (data_volume_gb c) (team_size c)
        (deployment_target c)
  | Set_data_volume_gb v =>
      mkServiceConstraints (service_name c) (service_type c) (throughput_tps c)
        (latency_p99_ms c) (consistency_model c) (integrations c) v (team_size c)
        (deployment_target c)
  | Set_team_size v =>
      mkServiceConstraints (service_name c) (service_type c) (throughput_tps c)
        (latency_p99_ms c) (consistency_model c) (integrations c) (data_volume_gb c) v
        (deployment_target c)
  | Set_deployment_target v =>
      mkServiceConstraints (service_name c) (service_type c) (throughput_tps c)
        (latency_p99_ms c) (consistency_model c) (integrations c) (data_volume_gb c)
        (team_size c) v
  end.

(** A sequence of assignments, executed left to right. *)
Definition assign_all (c : ServiceConstraints) (l : list assignment) : ServiceConstraints :=
  fold_left assign l c.

(** ** Text: the [str] methods the program calls *)

Definition is_upper (ch : ascii) : bool :=
  let n := N_of_ascii ch in ((65 <=? n) && (n <=? 90))%N.

Definition is_lower (ch : ascii) : bool :=
  let n := N_of_ascii ch in ((97 <=? n) && (n <=? 122))%N.

Definition is_digit (ch : ascii) : bool :=
  let n := N_of_ascii ch in ((48 <=? n) && (n <=? 57))%N.

Definition lower_char (ch : ascii) : ascii :=
  if is_upper ch then ascii_of_N (N_of_ascii ch + 32) else ch.

(** [s.lower()] *)
Fixpoint lower (s : string) : string :=
  match s with
  | EmptyString => EmptyString
  | String ch s' => String (lower_char ch) (lower s')
  end.

(** [s.startswith(p)] *)
Fixpoint startswith (p s : string) : bool :=
  match p, s with
  | EmptyString, _ => true
  | String _ _, EmptyString => false
  | String a p', String b s' => Ascii.eqb a b && startswith p' s'
  end.

(** [sub in s] on two strings: [sub] occurs in [s] as a contiguous run. *)
Fixpoint contains (sub s : string) : bool :=
  startswith sub s ||
  match s with
  | EmptyString => false
  | String _ s' => contains sub s'
  end.

(** [all(pred(ch) for ch in s)] *)
Fixpoint all_chars (pred : ascii -> bool) (s : string) : bool :=
  match s with
  | EmptyString => true
  | String ch s' => pred ch && all_chars pred s'
  end.

(** [s.isalnum()] and [s.isdigit()]: false on the empty string. *)
Definition isalnum (s : string) : bool :=
  truthy s && all_chars (fun ch => is_upper ch || is_lower ch || is_digit ch) s.

Definition isdigit (s : string) : bool :=
  truthy s && all_chars is_digit s.

(** [s.replace(ch, '')] for a one-character [ch]. *)
Fixpoint remove_char (ch : ascii) (s : string) : string :=
  match s with
  | EmptyString => EmptyString
  | String a s' => if Ascii.eqb a ch then remove_char ch s' else String a (remove_char ch s')
  end.

(** [int(s)] on a string of decimal digits. *)
Fixpoint int_acc (acc : Z) (s : string) : Z :=
  match s with
  | EmptyString => acc
  | String ch s' => int_acc (10 * acc + (Z.of_N (N_of_ascii ch) - 48)) s'
  end.

Definition int (s : string) : Z := int_acc 0 s.

(** The builtin [any] on a list of truth values. *)
Definition py_any (l : list bool) : bool := existsb (fun b => b) l.

(** [x in l] for a list of strings. *)
Definition mem (x : string) (l : list string) : bool :=
  existsb (String.eqb x) l.

(** The validators passed to [questionary.text]. *)
Definition valid_service_name (text : string) : bool :=
  (0 <? Z.of_nat (String.length text))
  && isalnum (remove_char "_" (remove_char "-" text)).

Definition valid_positive_int (text : string) : bool :=
  isdigit text && (0 <? int text).

(** ** The keyword branch of [_gather_consistency_requirements] *)

Definition strong_indicators : list string :=
  ["money"; "payment"; "financial"; "transaction";
   "inventory"; "stock"; "order"; "auth"; "security"].

Definition eventual_indicators : list string :=
  ["feed"; "timeline"; "social"; "analytics";
   "recommendation"; "cache"; "view"; "read"].

(** The value bound to [recommendation] for a given [use_case], with the two
    lines echoed by the branch taken (the leading blank line and symbol of
    the first one left out). *)
Definition keyword_recommendation (use_case : string) : string * list string :=
  let use_case_lower := lower use_case in
  if py_any (map (fun indicator => contains indicator use_case_lower) strong_indicators)
  then ("strong",
        ["Based on your use case, I recommend Strong Consistency.";
         "   Keywords detected: financial/transactional domain"])
  else if py_any (map (fun indicator => contains indicator use_case_lower) eventual_indicators)
  then ("eventual",
        ["Based on your use case, I recommend Eventual Consistency.";
         "   Keywords detected: read-heavy/analytical domain"])
  else ("strong",
        ["When in doubt, default to Strong Consistency.";
         "   You can always relax consistency later if needed."]).

(** ** The answer source

    A [questionary] prompt blocks until the user gives an answer it accepts.
    The user is a script of answers, consumed from the front: an answer the
    prompt cannot take (wrong kind, outside the choices, rejected by the
    validator) makes it ask again, that is, move on to the next answer;
    [Enter] accepts what the prompt shows initially. The end of the script
    is an interruption that arrives just before the next prompt takes over
    the keyboard: a [KeyboardInterrupt] raised in the program's own code,
    the one [run] handles. Cancelling a prompt itself is another event:
    questionary's [ask] then returns [None] and the program goes on with
    it. The script has no such answer, so the sessions described here are
    those whose prompts are all answered, up to such an interruption. *)

Inductive answer :=
| Enter
| Text (s : string)
| Pick (v : string)
| Ticks (vs : list string)
| YesNo (b : bool).

Definition script := list answer.

(** [questionary.text(default=..., validate=...).ask()] *)
Fixpoint text_ask (default : string) (validate : string -> bool) (sc : script)
  : option (string * script) :=
  match sc with
  | [] => None
  | Text s :: rest =>
      if validate s then Some (s, rest) else text_ask default validate rest
  | Enter :: rest =>
      if validate default then Some (default, rest) else text_ask default validate rest
  | _ :: rest => text_ask default validate rest
  end.

(** [questionary.select(choices=...).ask()]: the pointer starts on the first
    choice. *)
Fixpoint select_ask (choices : list string) (sc : script) : option (string * script) :=
  match sc with
  | [] => None
  | Pick v :: rest =>
      if mem v choices then Some (v, rest) else select_ask choices rest
  | Enter :: rest =>
      match choices with
      | first :: _ => Some (first, rest)
      | [] => select_ask choices rest
      end
  | _ :: rest => select_ask choices rest
  end.

(** [questionary.checkbox(choices=...).ask()]: the ticked choices, in the order
    of the choice list; nothing is ticked initially. *)
Fixpoint checkbox_ask (choices : list string) (sc : script)
  : option (list string * script) :=
  match sc with
  | [] => None
  | Ticks vs :: rest => Some (List.filter (fun v => mem v vs) choices, rest)
  | Enter :: rest => Some ([], rest)
  | _ :: rest => checkbox_ask choices rest
  end.

(** [questionary.confirm(default=...).ask()] *)
Fixpoint confirm_ask (default : bool) (sc : script) : option (bool * script) :=
  match sc with
  | [] => None
  | YesNo b :: rest => Some (b, rest)
  | Enter :: rest => Some (default, rest)
  | _ :: rest => confirm_ask default rest
  end.

(** ** The advisor and its computations *)

(** What a run of the advisor can read and change: [self.constraints],
    [self.context], and the total time asked of [time.sleep], in
    milliseconds. [self.api] stays [None] throughout and is left out. *)
Record advisor := mkAdvisor {
  constraints : ServiceConstraints;
  context : gmap string bool;
  slept_ms : Z
}.

(** [InteractiveAdvisor.__init__] *)
Definition InteractiveAdvisor_init : advisor :=
  {| constraints := ServiceConstraints_init; context := ∅; slept_ms := 0 |}.

(** Exceptions. [KeyboardInterrupt] is the one [run] handles.
    [IncompleteConstraintsError] is the error the specification names for
    generation from an incomplete record; no statement of [main.py] raises
    it. *)
Inductive exception :=
| KeyboardInterrupt
| IncompleteConstraintsError (missing : list string).

Inductive result (A : Type) :=
| Done (a : A) (st : advisor) (rest : script)
| Raised (e : exception) (st : advisor).

Arguments Done {A} a st rest.
Arguments Raised {A} e st.

(** A method of the advisor: from the advisor and the answers still to come
    to a value, the advisor afterwards and the answers left, or to an
    exception and the advisor as it was when the exception left the method. *)
Definition M (A : Type) : Type := advisor -> script -> result A.

Definition ret {A} (a : A) : M A := fun st sc => Done a st sc.

Definition bind {A B} (m : M A) (k : A -> M B) : M B :=
  fun st sc =>
    match m st sc with
    | Done a st' rest => k a st' rest
    | Raised e st' => Raised e st'
    end.

Declare Scope advisor_scope.
Delimit Scope advisor_scope with advisor.
Notation "x <- m ;; k" := (bind m (fun x => k))
  (at level 100, m at next level, right associativity) : advisor_scope.
Notation "m ;;; k" := (bind m (fun _ => k))
  (at level 100, right associativity) : advisor_scope.
Local Open Scope advisor_scope.

(** A prompt as a method: it leaves the advisor alone. *)
Definition ask {A} (prompt : script -> option (A * script)) : M A :=
  fun st sc =>
    match prompt sc with
    | Some (a, rest) => Done a st rest
    | None => Raised KeyboardInterrupt st
    end.

(** [self.constraints.<field> = v] *)
Definition write (a : assignment) : M unit :=
  fun st sc =>
    Done tt (mkAdvisor (assign (constraints st) a) (context st) (slept_ms st)) sc.

(** [self.context[key] = b] *)
Definition note (key : string) (b : bool) : M unit :=
  fun st sc =>
    Done tt (mkAdvisor (constraints st) (<[key := b]> (context st)) (slept_ms st)) sc.

(** [time.sleep(ms / 1000)] *)
Definition sleep (ms : Z) : M unit :=
  fun st sc =>
    Done tt (mkAdvisor (constraints st) (context st) (slept_ms st + ms)) sc.

(** [self.constraints] *)
Definition read_constraints : M ServiceConstraints :=
  fun st sc => Done (constraints st) st sc.

(** [for _ in range(n): body] *)
Fixpoint repeat_times (n : nat) (body : M unit) : M unit :=
  match n with
  | O => ret tt
  | S n' => body ;;; repeat_times n' body
  end.

(** ** Blueprints *)

Module Pattern.
(** An entry of [blueprint['patterns']]. *)
Record t := mk {
  id : string;
  name : string;
  confidence : float;
  rationale : string
}.
End Pattern.

Module Artifact.
(** An entry of [blueprint['artifacts']]. *)
Record t := mk {
  type : string;
  path : string
}.
End Artifact.

Module Blueprint.
(** The dict returned by [_generate_blueprint_mock]. *)
Record t := mk {
  service_name : string;
  confidence : float;
  patterns : list Pattern.t;
  artifacts : list Artifact.t
}.
End Blueprint.

(** The three pattern dicts, in the order in which the generator appends
    them. A decimal literal denotes the nearest double, as in Python. *)
#[local] Set Warnings "-inexact-float".

Definition transactional_outbox : Pattern.t :=
  {| Pattern.id := "pattern-023";
     Pattern.name := "Transactional Outbox Pattern";
     Pattern.confidence := 0.92%float;
     Pattern.rationale := "Ensures atomic state changes with event publishing" |}.

Definition actor_mailbox_backpressure : Pattern.t :=
  {| Pattern.id := "pattern-001";
     Pattern.name := "Actor Mailbox Backpressure";
     Pattern.confidence := 0.95%float;
     Pattern.rationale := "Handles high load with graceful degradation" |}.

Definition opentelemetry_instrumentation : Pattern.t :=
  {| Pattern.id := "pattern-007";
     Pattern.name := "OpenTelemetry Instrumentation";
     Pattern.confidence := 0.98%float;
     Pattern.rationale := "Essential observability for all production services" |}.

Definition catalog : list Pattern.t :=
  [transactional_outbox; actor_mailbox_backpressure; opentelemetry_instrumentation].

(** [InteractiveAdvisor._generate_blueprint_mock] *)
Definition _generate_blueprint_mock : M Blueprint.t :=
  repeat_times 100 (sleep 20) ;;;
  c <- read_constraints ;;
  let patterns := [] in
  let patterns :=
    if String.eqb (consistency_model c) "strong"
    then (patterns ++ [transactional_outbox])%list else patterns in
  let patterns :=
    if 1000 <? throughput_tps c
    then (patterns ++ [actor_mailbox_backpressure])%list else patterns in
  let patterns := (patterns ++ [opentelemetry_instrumentation])%list in
  ret {| Blueprint.service_name := service_name c;
         Blueprint.confidence := 0.87%float;
         Blueprint.patterns := patterns;
         Blueprint.artifacts :=
           [ Artifact.mk "proto" ("proto/" ++ service_name c ++ "/v1/service.proto");
             Artifact.mk "sql" "db/schema.sql";
             Artifact.mk "kubernetes" "deploy/k8s/deployment.yaml";
             Artifact.mk "markdown" "docs/ARCHITECTURE.md" ] |}.

(** ** The interview *)

Definition service_type_values : list string :=
  ["api"; "event_processor"; "background_worker"; "stream_processor"; "specialized"].

Definition consistency_values : list string := ["strong"; "eventual"; "help"].

Definition integration_values : list string :=
  ["kafka"; "postgresql"; "redis"; "elasticsearch"; "s3"; "rest_api"; "grpc"; "none"].

(** [InteractiveAdvisor._gather_basic_identity] *)
Definition _gather_basic_identity : M unit :=
  text <- ask (text_ask "" valid_service_name) ;;
  write (Set_service_name text) ;;;
  choice <- ask (select_ask service_type_values) ;;
  write (Set_service_type choice) ;;;
  note "service_type_chosen" true.

(** [InteractiveAdvisor._gather_performance_requirements] *)
Definition _gather_performance_requirements : M unit :=
  c <- read_constraints ;;
  let default_value :=
    if String.eqb (service_type c) "api" then "1000"
    else if String.eqb (service_type c) "event_processor" then "500"
    else "100" in
  throughput_str <- ask (text_ask default_value valid_positive_int) ;;
  write (Set_throughput_tps (int throughput_str)) ;;;
  latency_str <- ask (text_ask "100" valid_positive_int) ;;
  write (Set_latency_p99_ms (int latency_str)).

(** [InteractiveAdvisor._gather_consistency_requirements] *)
Definition _gather_consistency_requirements : M unit :=
  choice <- ask (select_ask consistency_values) ;;
  choice <-
    (if String.eqb choice "help" then
       use_case <- ask (text_ask "" (fun _ => true)) ;;
       let recommendation := fst (keyword_recommendation use_case) in
       confirmed <- ask (confirm_ask true) ;;
       if confirmed : bool then ret recommendation
       else ask (select_ask ["strong"; "eventual"])
     else ret choice) ;;
  write (Set_consistency_model choice).

(** [InteractiveAdvisor._gather_integration_requirements] *)
Definition _gather_integration_requirements : M unit :=
  selected <- ask (checkbox_ask integration_values) ;;
  write (Set_integrations
           (List.filter (fun s => negb (String.eqb s "none")) selected)).

(** [InteractiveAdvisor._gather_team_context] *)
Definition _gather_team_context : M unit :=
  team_size_str <- ask (text_ask "3" valid_positive_int) ;;
  write (Set_team_size (int team_size_str)).

(** [InteractiveAdvisor._summarize_constraints]: prints only. *)
Definition _summarize_constraints : M unit := ret tt.

(** [InteractiveAdvisor._confirm_proceed] *)
Definition _confirm_proceed : M bool := ask (confirm_ask true).

(** [_display_blueprint] and [_show_next_steps] print; [_write_artifacts_mock]
    creates stub files under the service directory. None of them reads an
    answer or touches the advisor. *)
Definition _display_blueprint (blueprint : Blueprint.t) : M unit := ret tt.
Definition _write_artifacts_mock (blueprint : Blueprint.t) : M unit := ret tt.
Definition _show_next_steps : M unit := ret tt.

(** [InteractiveAdvisor._save_progress]: the document dumped to
    [~/.ose/progress.json]. *)
Definition _save_progress (st : advisor) : gmap string value :=
  to_dict (constraints st).

(** The [try] block of [InteractiveAdvisor.run]; the value is the blueprint
    when one was generated. *)
Definition conversation : M (option Blueprint.t) :=
  _gather_basic_identity ;;;
  _gather_performance_requirements ;;;
  _gather_consistency_requirements ;;;
  _gather_integration_requirements ;;;
  _gather_team_context ;;;
  _summarize_constraints ;;;
  proceed <- _confirm_proceed ;;
  if proceed : bool then
    blueprint <- _generate_blueprint_mock ;;
    _display_blueprint blueprint ;;;
    _write_artifacts_mock blueprint ;;;
    _show_next_steps ;;;
    ret (Some blueprint)
  else ret None.

(** How [run] ends: it returns, or it saves the progress and leaves through
    [sys.exit], or an exception other than [KeyboardInterrupt] escapes. *)
Inductive run_outcome :=
| Returned (st : advisor) (blueprint : option Blueprint.t)
| Exited (code : Z) (st : advisor) (progress : gmap string value)
| Uncaught (e : exception) (st : advisor).

(** [InteractiveAdvisor.run] *)
Definition run (st : advisor) (sc : script) : run_outcome :=
  match conversation st sc with
  | Done blueprint st' _ => Returned st' blueprint
  | Raised KeyboardInterrupt st' => Exited 0 st' (_save_progress st')
  | Raised e st' => Uncaught e st'
  end.

(** The [init] command: a fresh advisor, the name given on the command line
    if any, then [run]. Resuming only prints a line. *)
Definition init (service_name_option : option string) (resume : bool) (sc : script)
  : run_outcome :=
  let advisor := InteractiveAdvisor_init in
  let advisor :=
    match service_name_option with
    | Some given =>
        if truthy given
        then mkAdvisor (assign (constraints advisor) (Set_service_name given))
               (context advisor) (slept_ms advisor)
        else advisor
    | None => advisor
    end in
  run advisor sc.

(** ** Notions used in the statements *)

(** [k] occurs in [s] up to the case of letters: some contiguous run of [s]
    has the same lower-case form as [k]. *)
Definition occurs_ignoring_case (k s : string) : Prop :=
  exists pre occ post, s = pre ++ occ ++ post /\ lower occ = lower k.

(** The advisor after [self.constraints.consistency_model = v]. *)
Definition with_consistency_model (st : advisor) (v : string) : advisor :=
  mkAdvisor (assign (constraints st) (Set_consistency_model v))
    (context st) (slept_ms st).

(** An advisor holding the given constraints and nothing else. *)
Definition advisor_with (c : ServiceConstraints) : advisor :=
  {| constraints := c; context := ∅; slept_ms := 0 |}.

(** The patterns appended for given constraints. *)
Definition appended (c : ServiceConstraints) : list Pattern.t :=
  ((if String.eqb (consistency_model c) "strong" then [transactional_outbox] else [])
   ++ (if 1000 <? throughput_tps c then [actor_mailbox_backpressure] else [])
   ++ [opentelemetry_instrumentation])%list.

(** [preserves Inv m]: started from an advisor satisfying [Inv], the method [m]
    ends with an advisor satisfying [Inv], whether it returns or is
    interrupted, and [KeyboardInterrupt] is the only exception that leaves
    it. *)
Definition preserves {A : Type} (Inv : advisor -> Prop) (m : M A) : Prop :=
  forall st sc, Inv st ->
    match m st sc with
    | Done _ st' _ => Inv st'
    | Raised e st' => e = KeyboardInterrupt /\ Inv st'
    end.

(** Every pattern's confidence is at least that of each pattern after it. *)
Definition descending_confidence (l : list Pattern.t) : Prop :=
  StronglySorted
    (fun p q => PrimFloat.leb (Pattern.confidence q) (Pattern.confidence p) = true) l.

(** Every pattern's confidence is below that of each pattern after it. *)
Definition ascending_confidence (l : list Pattern.t) : Prop :=
  StronglySorted
    (fun p q => PrimFloat.ltb (Pattern.confidence p) (Pattern.confidence q) = true) l.

(** The fields of the constraint set as section 3 of the specification lists
    them, spelled as the attributes of [ServiceConstraints]. *)
Definition specified_fields : list string :=
  [ "service_name"; "service_type"; "throughput_tps"; "latency_p99_ms";
    "consistency_model"; "integrations"; "team_size"; "deployment_target" ].

(** The two fields no prompt asks about hold the given values. *)
Definition untouched (volume : float) (target : string) (st : advisor) : Prop :=
  data_volume_gb (constraints st) = volume
  /\ deployment_target (constraints st) = target.

(** The five elicitation phases, in the order in which [run] calls them. *)
Definition elicitation_phases : list (M unit) :=
  [ _gather_basic_identity; _gather_performance_requirements;
    _gather_consistency_requirements; _gather_integration_requirements;
    _gather_team_context ].

(** ** Inputs of the scenarios *)

(** One assignment to each required field. *)
Definition five_assignments : list assignment :=
  [ Set_service_name "inventory-manager"; Set_service_type "api";
    Set_throughput_tps 2000; Set_latency_p99_ms 100;
    Set_consistency_model "strong" ].

(** The record of [test_generate_blueprint_mock]: no latency is set. *)
Definition test_constraints : ServiceConstraints :=
  assign_all ServiceConstraints_init
    [ Set_service_name "test-service"; Set_service_type "api";
      Set_throughput_tps 2000; Set_consistency_model "strong" ].

(** Scenario A, completed with a latency. *)
Definition scenario_a : ServiceConstraints :=
  assign test_constraints (Set_latency_p99_ms 100).

(** Scenario B. *)
Definition scenario_b : ServiceConstraints :=
  assign_all ServiceConstraints_init
    [ Set_service_name "report-viewer"; Set_service_type "background_worker";
      Set_throughput_tps 100; Set_latency_p99_ms 250;
      Set_consistency_model "eventual" ].

(** A second advisor with the constraints of scenario A: it has noted a
    context entry and has slept before. *)
Definition busy_advisor : advisor :=
  {| constraints := scenario_a;
     context := {[ "service_type_chosen" := true ]};
     slept_ms := 2000 |}.

(** A user who goes through the whole interview and accepts the blueprint. *)
Definition happy_script : script :=
  [ Text "inventory-manager"; Pick "api"; Text "2000"; Enter;
    Pick "help"; Text "this tracks payment transactions"; Enter;
    Ticks ["postgresql"; "kafka"]; Enter; Enter ].

(** ** Notions used in the further properties *)

(** The value an attribute holds, tagged as [to_dict] tags it. *)
Definition get_field (f : field) (c : ServiceConstraints) : value :=
  match f with
  | F_service_name => VStr (service_name c)
  | F_service_type => VStr (service_type c)
  | F_throughput_tps => VInt (throughput_tps c)
  | F_latency_p99_ms => VInt (latency_p99_ms c)
  | F_consistency_model => VStr (consistency_model c)
  | F_integrations => VList (integrations c)
  | F_data_volume_gb => VFloat (data_volume_gb c)
  | F_team_size => VInt (team_size c)
  | F_deployment_target => VStr (deployment_target c)
  end.

(** The key under which [to_dict] stores an attribute. *)
Definition key_of (f : field) : string :=
  match f with
  | F_service_name => "service_name"
  | F_service_type => "service_type"
  | F_throughput_tps => "throughput_tps"
  | F_latency_p99_ms => "latency_p99_ms"
  | F_consistency_model => "consistency_model"
  | F_integrations => "integrations"
  | F_data_volume_gb => "data_volume_gb"
  | F_team_size => "team_size"
  | F_deployment_target => "deployment_target"
  end.

(** A letter or a digit; a character a service name may contain. *)
Definition is_alnum (ch : ascii) : bool := is_upper ch || is_lower ch || is_digit ch.

Definition is_name_char (ch : ascii) : bool :=
  is_alnum ch || Ascii.eqb ch "-" || Ascii.eqb ch "_".

(** The integrations offered by the checkbox, without the "none" entry. *)
Definition real_integrations : list string :=
  ["kafka"; "postgresql"; "redis"; "elasticsearch"; "s3"; "rest_api"; "grpc"].

(** A text of ASCII characters: on such a text the model of [lower],
    [isalnum] and [isdigit] is exact. *)
Definition is_ascii_char (ch : ascii) : bool := (N_of_ascii ch <? 128)%N.

Definition ascii_text (s : string) : Prop := all_chars is_ascii_char s = true.

(** The longest text of digits that [int] converts whatever the
    interpreter's limit on the length of such conversions. *)
Definition max_str_digits : nat := 4300.

(** The advisor after [self.constraints.<field> = v]. *)
Definition after_write (st : advisor) (a : assignment) : advisor :=
  mkAdvisor (assign (constraints st) a) (context st) (slept_ms st).

(** * Properties *)

(** ** The definitions on sample inputs *)

Example lower_mixed : lower "Stock-OPTIONS 42" = "stock-options 42".
Proof. reflexivity. Qed.

Example contains_inner : contains "order" "reorders" = true.
Proof. reflexivity. Qed.

Example contains_absent : contains "order" "ordre" = false.
Proof. reflexivity. Qed.

Example valid_service_name_ok : valid_service_name "inventory-manager_2" = true.
Proof. reflexivity. Qed.

Example valid_service_name_dash : valid_service_name "--" = false.
Proof. reflexivity. Qed.

Example valid_positive_int_zero : valid_positive_int "000" = false.
Proof. reflexivity. Qed.

Example int_leading_zero : int "0150" = 150.
Proof. reflexivity. Qed.

Example scenario_payment :
  fst (keyword_recommendation "this tracks payment transactions") = "strong".
Proof. reflexivity. Qed.

Example happy_run :
  match init None false happy_script with
  | Returned st (Some b) =>
      constraints st =
        {| service_name := "inventory-manager"; service_type := "api";
           throughput_tps := 2000; latency_p99_ms := 100;
           consistency_model := "strong"; integrations := ["kafka"; "postgresql"];
           data_volume_gb := 0%float; team_size := 3;
           deployment_target := "kubernetes" |}
      /\ map Pattern.name (Blueprint.patterns b) =
         ["Transactional Outbox Pattern"; "Actor Mailbox Backpressure";
          "OpenTelemetry Instrumentation"]
      /\ slept_ms st = 2000
  | _ => False
  end.
Proof. vm_compute. auto. Qed.

(** ** Completeness of the constraint record *)

Lemma truthy_nonempty (s : string) : truthy s = true <-> s <> "".
Proof.
  destruct s as [|ch s']; simpl; split; intro H; congruence.
Qed.

Lemma is_complete_iff (c : ServiceConstraints) :
  is_complete c = true <->
  service_name c <> "" /\ service_type c <> "" /\
  0 < throughput_tps c /\ 0 < latency_p99_ms c /\ consistency_model c <> "".
Proof.
  unfold is_complete, py_all; simpl.
  rewrite !andb_true_iff, !truthy_nonempty, !Z.ltb_lt.
  tauto.
Qed.

Lemma assign_commute (c : ServiceConstraints) (a b : assignment) :
  field_of a <> field_of b -> assign (assign c a) b = assign (assign c b) a.
Proof.
  destruct a, b; simpl; intro Hne; try reflexivity; contradiction.
Qed.

Lemma assign_all_permutation (l l' : list assignment) :
  Permutation l l' -> NoDup (map field_of l) ->
  forall c, assign_all c l = assign_all c l'.
Proof.
  unfold assign_all.
  induction 1 as [|a l l' Hperm IH|a b l|l l' l'' H1 IH1 H2 IH2]; intros Hnd c; simpl.
  - reflexivity.
  - apply IH. inversion Hnd; assumption.
  - f_equal. apply assign_commute.
    inversion Hnd as [|x xs Hnotin _]; subst.
    intro Heq. apply Hnotin. rewrite Heq. constructor.
  - rewrite IH1 by assumption. apply IH2.
    rewrite <- H1. exact Hnd.
Qed.

(** C3. [is_complete] is true exactly when the name, the type and the
    consistency model are non-empty and throughput and latency are positive;
    the integrations and the team size play no part; and when each field is
    assigned at most once, the order of the assignments does not change the
    result. *)
Theorem is_complete_characterisation :
  (forall c : ServiceConstraints,
      is_complete c = true <->
      service_name c <> "" /\ service_type c <> "" /\
      0 < throughput_tps c /\ 0 < latency_p99_ms c /\ consistency_model c <> "")
  /\ (forall (c : ServiceConstraints) (chosen : list string) (size : Z),
        is_complete (assign (assign c (Set_integrations chosen)) (Set_team_size size))
        = is_complete c)
  /\ (forall (c : ServiceConstraints) (l l' : list assignment),
        NoDup (map field_of l) -> Permutation l l' ->
        is_complete (assign_all c l') = is_complete (assign_all c l)).
Proof.
  split; [exact is_complete_iff|split].
  - intros c chosen size. reflexivity.
  - intros c l l' Hnd Hperm.
    rewrite (assign_all_permutation l l' Hperm Hnd c). reflexivity.
Qed.

Lemma is_complete_characterisation_witness :
  NoDup (map field_of five_assignments)
  /\ Permutation five_assignments (rev five_assignments)
  /\ is_complete (assign_all ServiceConstraints_init (rev five_assignments))
     = is_complete (assign_all ServiceConstraints_init five_assignments)
  /\ is_complete (assign_all ServiceConstraints_init five_assignments) = true.
Proof.
  assert (Hnd : NoDup (map field_of five_assignments)).
  { apply (bool_decide_unpack _). vm_compute. exact I. }
  assert (Hperm : Permutation five_assignments (rev five_assignments)).
  { apply Permutation_rev. }
  refine (conj Hnd (conj Hperm (conj _ _))).
  - exact (proj2 (proj2 is_complete_characterisation)
             ServiceConstraints_init five_assignments (rev five_assignments)
             Hnd Hperm).
  - reflexivity.
Defined.

(** ** The keyword branch *)

Lemma append_cons (ch : ascii) (s t : string) :
  String ch s ++ t = String ch (s ++ t).
Proof. reflexivity. Qed.

Lemma append_empty (t : string) : "" ++ t = t.
Proof. reflexivity. Qed.

Lemma lower_append (s t : string) : lower (s ++ t) = lower s ++ lower t.
Proof.
  induction s as [|ch s IH].
  - reflexivity.
  - rewrite append_cons. simpl. rewrite IH. reflexivity.
Qed.

(** A split of [lower s] comes from a split of [s]. *)
Lemma lower_split (s a b : string) :
  lower s = a ++ b ->
  exists a' b', s = a' ++ b' /\ lower a' = a /\ lower b' = b.
Proof.
  revert s. induction a as [|ch a IH]; intros s H.
  - exists "", s. rewrite append_empty in H. auto.
  - destruct s as [|ch' s]; [discriminate|].
    rewrite append_cons in H. simpl in H. injection H as Hch Hrest.
    destruct (IH s Hrest) as (a' & b' & -> & Ha & Hb).
    exists (String ch' a'), b'. simpl. rewrite Ha, Hch. auto.
Qed.

Lemma startswith_prefix (p s : string) :
  startswith p s = true <-> exists post, s = p ++ post.
Proof.
  revert s. induction p as [|a p IH]; intros s; simpl.
  - split; [exists s; reflexivity|reflexivity].
  - destruct s as [|b s].
    + split; [discriminate|]. intros [post H]. discriminate.
    + rewrite andb_true_iff, IH, Ascii.eqb_eq. split.
      * intros [-> [post ->]]. exists post. reflexivity.
      * intros [post H]. rewrite append_cons in H.
        injection H as -> ->. eauto.
Qed.

Lemma contains_occurrence (sub s : string) :
  contains sub s = true <-> exists pre post, s = pre ++ sub ++ post.
Proof.
  induction s as [|b s IH]; simpl.
  - rewrite orb_false_r, startswith_prefix. split.
    + intros [post H]. exists "", post. exact H.
    + intros (pre & post & H). destruct pre as [|ch pre]; [|discriminate].
      exists post. exact H.
  - rewrite orb_true_iff, startswith_prefix, IH. split.
    + intros [[post H]|(pre & post & H)].
      * exists "", post. exact H.
      * exists (String b pre), post. rewrite append_cons, H. reflexivity.
    + intros (pre & post & H). destruct pre as [|ch pre].
      * left. exists post. exact H.
      * right. rewrite append_cons in H. injection H as _ H.
        exists pre, post. exact H.
Qed.

(** Occurrence up to case is what the program tests on the lower-cased
    text. *)
Lemma occurs_ignoring_case_contains (k s : string) :
  occurs_ignoring_case k s <-> contains (lower k) (lower s) = true.
Proof.
  rewrite contains_occurrence. split.
  - intros (pre & occ & post & -> & Hocc).
    exists (lower pre), (lower post).
    rewrite !lower_append, Hocc. reflexivity.
  - intros (pre & post & H).
    destruct (lower_split _ _ _ H) as (pre' & rest & -> & Hpre & Hrest).
    destruct (lower_split _ _ _ Hrest) as (occ & post' & -> & Hocc & Hpost).
    exists pre', occ, post'. auto.
Qed.

Lemma py_any_indicator (indicators : list string) (text : string) :
  py_any (map (fun indicator => contains indicator text) indicators) = true <->
  exists k, In k indicators /\ contains k text = true.
Proof.
  unfold py_any. rewrite existsb_exists. split.
  - intros (b & Hin & Hb). apply in_map_iff in Hin as (k & Hk & Hin).
    exists k. subst b. auto.
  - intros (k & Hin & Hk). exists true. split; [|reflexivity].
    apply in_map_iff. exists k. auto.
Qed.

(** The test of a branch in terms of occurrences, for a list of lower-case
    keywords. *)
Lemma indicator_hit_iff (indicators : list string) (use_case : string) :
  Forall (fun k => lower k = k) indicators ->
  py_any (map (fun indicator => contains indicator (lower use_case)) indicators) = true
  <-> exists k, In k indicators /\ occurs_ignoring_case k use_case.
Proof.
  intro Hlow. rewrite Forall_forall in Hlow. rewrite py_any_indicator.
  split; intros (k & Hin & Hk); exists k; (split; [exact Hin|]).
  - apply occurs_ignoring_case_contains. rewrite Hlow; [exact Hk|].
    apply list_elem_of_In. exact Hin.
  - apply occurs_ignoring_case_contains in Hk. rewrite Hlow in Hk; [exact Hk|].
    apply list_elem_of_In. exact Hin.
Qed.

Lemma strong_hit_iff (use_case : string) :
  py_any (map (fun indicator => contains indicator (lower use_case)) strong_indicators)
  = true <->
  exists k, In k strong_indicators /\ occurs_ignoring_case k use_case.
Proof. apply indicator_hit_iff. repeat constructor. Qed.

Lemma eventual_hit_iff (use_case : string) :
  py_any (map (fun indicator => contains indicator (lower use_case)) eventual_indicators)
  = true <->
  exists k, In k eventual_indicators /\ occurs_ignoring_case k use_case.
Proof. apply indicator_hit_iff. repeat constructor. Qed.

(** The recommendation is one of the two models, whatever the text. *)
Lemma keyword_recommendation_binary (use_case : string) :
  fst (keyword_recommendation use_case) = "strong"
  \/ fst (keyword_recommendation use_case) = "eventual".
Proof.
  unfold keyword_recommendation.
  destruct (py_any _); [left; reflexivity|].
  destruct (py_any _); [right|left]; reflexivity.
Qed.

(** C4. A text in which a keyword of the strong list and a keyword of the
    eventual list both occur, whatever the case of its letters, is
    recommended strong consistency; so is the text "this tracks payment
    transactions". *)
Theorem strong_keyword_wins :
  (forall use_case ks ke : string,
      In ks strong_indicators -> In ke eventual_indicators ->
      occurs_ignoring_case ks use_case -> occurs_ignoring_case ke use_case ->
      fst (keyword_recommendation use_case) = "strong")
  /\ fst (keyword_recommendation "this tracks payment transactions") = "strong".
Proof.
  split; [|reflexivity].
  intros use_case ks ke Hks _ Hoccurs _.
  assert (Hhit : py_any (map (fun indicator => contains indicator (lower use_case))
                          strong_indicators) = true).
  { apply strong_hit_iff. exists ks. auto. }
  unfold keyword_recommendation. rewrite Hhit. reflexivity.
Qed.

Lemma strong_keyword_wins_witness :
  In "stock" strong_indicators /\ In "feed" eventual_indicators
  /\ occurs_ignoring_case "stock" "Stock FEED"
  /\ occurs_ignoring_case "feed" "Stock FEED"
  /\ fst (keyword_recommendation "Stock FEED") = "strong".
Proof.
  assert (Hks : In "stock" strong_indicators) by (simpl; tauto).
  assert (Hke : In "feed" eventual_indicators) by (simpl; tauto).
  assert (Hs : occurs_ignoring_case "stock" "Stock FEED").
  { exists "", "Stock", " FEED". split; reflexivity. }
  assert (He : occurs_ignoring_case "feed" "Stock FEED").
  { exists "Stock ", "FEED", "". split; reflexivity. }
  refine (conj Hks (conj Hke (conj Hs (conj He _)))).
  exact (proj1 strong_keyword_wins "Stock FEED" "stock" "feed" Hks Hke Hs He).
Defined.

(** ** Reasoning about methods *)

Section Preservation.

Context {A B : Type} (Inv : advisor -> Prop).

Lemma preserves_ret (a : A) : preserves Inv (ret a).
Proof. intros st sc HInv. exact HInv. Qed.

Lemma preserves_bind (m : M A) (k : A -> M B) :
  preserves Inv m -> (forall a, preserves Inv (k a)) -> preserves Inv (bind m k).
Proof.
  intros Hm Hk st sc HInv. unfold bind.
  specialize (Hm st sc HInv). destruct (m st sc) as [a st' rest|e st'].
  - apply Hk. exact Hm.
  - exact Hm.
Qed.

Lemma preserves_ask (prompt : script -> option (A * script)) :
  preserves Inv (ask prompt).
Proof.
  intros st sc HInv. unfold ask.
  destruct (prompt sc) as [[a rest]|]; auto.
Qed.

Lemma preserves_if (b : bool) (m1 m2 : M A) :
  preserves Inv m1 -> preserves Inv m2 -> preserves Inv (if b then m1 else m2).
Proof. destruct b; auto. Qed.

End Preservation.

Create HintDb preserves.
#[local] Hint Resolve preserves_ret preserves_ask preserves_if : preserves.

Ltac preserves_steps :=
  repeat first
    [ progress cbv zeta
    | apply preserves_bind; [|intro]
    | apply preserves_if
    | solve [eauto with preserves] ].

(** What the prompts return. *)

Lemma mem_In (x : string) (l : list string) : mem x l = true <-> In x l.
Proof.
  unfold mem. rewrite existsb_exists. split.
  - intros (y & Hin & Heq). apply String.eqb_eq in Heq. subst. exact Hin.
  - intro Hin. exists x. split; [exact Hin|apply String.eqb_refl].
Qed.

Lemma text_ask_valid (default : string) (validate : string -> bool) (sc : script)
    (s : string) (rest : script) :
  text_ask default validate sc = Some (s, rest) -> validate s = true.
Proof.
  induction sc as [|a sc IH]; simpl; [discriminate|].
  destruct a as [|t|v|vs|b]; try exact IH.
  - destruct (validate default) eqn:Hv; [|exact IH].
    intro H. injection H as <- _. exact Hv.
  - destruct (validate t) eqn:Hv; [|exact IH].
    intro H. injection H as <- _. exact Hv.
Qed.

Lemma select_ask_member (choices : list string) (sc : script)
    (v : string) (rest : script) :
  select_ask choices sc = Some (v, rest) -> In v choices.
Proof.
  induction sc as [|a sc IH]; simpl; [discriminate|].
  destruct a as [|t|w|vs|b]; try exact IH.
  - destruct choices as [|first others]; [exact IH|].
    intro H. injection H as <- _. left. reflexivity.
  - destruct (mem w choices) eqn:Hmem; [|exact IH].
    intro H. injection H as <- _. apply mem_In. exact Hmem.
Qed.

Lemma checkbox_ask_subset (choices : list string) (sc : script)
    (vs : list string) (rest : script) :
  checkbox_ask choices sc = Some (vs, rest) -> incl vs choices.
Proof.
  induction sc as [|a sc IH]; simpl; [discriminate|].
  destruct a as [|t|w|ws|b]; try exact IH.
  - intro H. injection H as <- _. intros x [].
  - intro H. injection H as <- _. intros x Hx.
    apply List.filter_In in Hx. tauto.
Qed.

(** ** Blueprint generation *)

Lemma repeat_times_sleep (n : nat) (ms : Z) (st : advisor) (sc : script) :
  repeat_times n (sleep ms) st sc =
  Done tt (mkAdvisor (constraints st) (context st) (slept_ms st + Z.of_nat n * ms)) sc.
Proof.
  revert st. induction n as [|n IH]; intro st.
  - simpl. unfold ret. destruct st as [c x t]. simpl. f_equal. f_equal. lia.
  - change (repeat_times (S n) (sleep ms)) with (bind (sleep ms) (fun _ => repeat_times n (sleep ms))).
    unfold bind at 1. unfold sleep at 1. rewrite IH. simpl. f_equal. f_equal. lia.
Qed.

(** Generation returns, whatever the advisor and the answers left, and
    consumes no answer. *)
Lemma generate_blueprint_mock_returns (st : advisor) (sc : script) :
  exists b,
    _generate_blueprint_mock st sc =
    Done b (mkAdvisor (constraints st) (context st) (slept_ms st + 2000)) sc
    /\ Blueprint.service_name b = service_name (constraints st)
    /\ Blueprint.confidence b = 0.87%float
    /\ Blueprint.patterns b = appended (constraints st).
Proof.
  unfold _generate_blueprint_mock, bind. rewrite repeat_times_sleep.
  unfold read_constraints, ret, appended. cbn [constraints context slept_ms].
  eexists. split; [reflexivity|]. cbn [Blueprint.service_name Blueprint.confidence Blueprint.patterns].
  repeat split.
  destruct (String.eqb _ _), (1000 <? _); reflexivity.
Qed.

Lemma appended_ascending (c : ServiceConstraints) : ascending_confidence (appended c).
Proof.
  unfold appended, ascending_confidence.
  destruct (String.eqb _ _), (1000 <? _); simpl;
    repeat (constructor; [|repeat constructor]); constructor.
Qed.

Lemma appended_sublist (c : ServiceConstraints) : sublist (appended c) catalog.
Proof.
  unfold appended, catalog.
  destruct (String.eqb _ _), (1000 <? _); simpl.
  - reflexivity.
  - apply sublist_skip, sublist_cons. reflexivity.
  - apply sublist_cons. reflexivity.
  - apply sublist_cons, sublist_cons. reflexivity.
Qed.

(** ** The two fields no phase asks about *)

Section Untouched.

Variables (volume : float) (target : string).

Lemma untouched_write (a : assignment) :
  field_of a <> F_data_volume_gb -> field_of a <> F_deployment_target ->
  preserves (untouched volume target) (write a).
Proof.
  intros Hv Ht st sc HI. unfold untouched in *. simpl.
  destruct a; simpl in *; try exact HI; contradiction.
Qed.

Lemma untouched_note (key : string) (b : bool) :
  preserves (untouched volume target) (note key b).
Proof. intros st sc HI. exact HI. Qed.

Lemma untouched_sleep (ms : Z) : preserves (untouched volume target) (sleep ms).
Proof. intros st sc HI. exact HI. Qed.

Lemma untouched_read_constraints :
  preserves (untouched volume target) read_constraints.
Proof. intros st sc HI. exact HI. Qed.

Lemma untouched_repeat_times (n : nat) (body : M unit) :
  preserves (untouched volume target) body ->
  preserves (untouched volume target) (repeat_times n body).
Proof.
  intro Hbody. induction n as [|n IH]; simpl.
  - apply preserves_ret.
  - apply preserves_bind; auto.
Qed.

Hint Resolve untouched_note untouched_sleep untouched_read_constraints
  untouched_repeat_times : preserves.
Hint Extern 1 (preserves _ (write _)) =>
  (apply untouched_write; discriminate) : preserves.

Lemma untouched_basic_identity :
  preserves (untouched volume target) _gather_basic_identity.
Proof. unfold _gather_basic_identity. preserves_steps. Qed.

Lemma untouched_performance_requirements :
  preserves (untouched volume target) _gather_performance_requirements.
Proof. unfold _gather_performance_requirements. preserves_steps. Qed.

Lemma untouched_consistency_requirements :
  preserves (untouched volume target) _gather_consistency_requirements.
Proof. unfold _gather_consistency_requirements. preserves_steps. Qed.

Lemma untouched_integration_requirements :
  preserves (untouched volume target) _gather_integration_requirements.
Proof. unfold _gather_integration_requirements. preserves_steps. Qed.

Lemma untouched_team_context :
  preserves (untouched volume target) _gather_team_context.
Proof. unfold _gather_team_context. preserves_steps. Qed.

Lemma untouched_generate_blueprint_mock :
  preserves (untouched volume target) _generate_blueprint_mock.
Proof. unfold _generate_blueprint_mock. preserves_steps. Qed.

Hint Resolve untouched_basic_identity untouched_performance_requirements
  untouched_consistency_requirements untouched_integration_requirements
  untouched_team_context untouched_generate_blueprint_mock : preserves.

Lemma untouched_conversation :
  preserves (untouched volume target) conversation.
Proof.
  unfold conversation, _summarize_constraints, _confirm_proceed,
    _display_blueprint, _write_artifacts_mock, _show_next_steps.
  preserves_steps.
Qed.

End Untouched.

Lemma to_dict_data_volume_gb (c : ServiceConstraints) :
  to_dict c !! "data_volume_gb" = Some (VFloat (data_volume_gb c)).
Proof. reflexivity. Qed.

Lemma to_dict_deployment_target (c : ServiceConstraints) :
  to_dict c !! "deployment_target" = Some (VStr (deployment_target c)).
Proof. reflexivity. Qed.

Lemma to_dict_keys (c : ServiceConstraints) :
  dom (to_dict c) = list_to_set ("data_volume_gb" :: specified_fields).
Proof. reflexivity. Qed.


(** ** The consistency phase *)

Arguments keyword_recommendation : simpl never.

Lemma consistency_phase_direct (st : advisor) (v : string) (rest : script) :
  v = "strong" \/ v = "eventual" ->
  _gather_consistency_requirements st (Pick v :: rest)
  = Done tt (with_consistency_model st v) rest.
Proof. intros [-> | ->]; reflexivity. Qed.

Lemma consistency_phase_help_confirmed (st : advisor) (use_case : string)
    (rest : script) :
  _gather_consistency_requirements st
    (Pick "help" :: Text use_case :: YesNo true :: rest)
  = Done tt (with_consistency_model st (fst (keyword_recommendation use_case))) rest.
Proof. reflexivity. Qed.

Lemma consistency_phase_help_rejected (st : advisor) (use_case v : string)
    (rest : script) :
  v = "strong" \/ v = "eventual" ->
  _gather_consistency_requirements st
    (Pick "help" :: Text use_case :: YesNo false :: Pick v :: rest)
  = Done tt (with_consistency_model st v) rest.
Proof. intros [-> | ->]; reflexivity. Qed.

(** C5, as the program has it. An ASCII text in which no keyword of either
    list occurs takes the last branch: the recommendation is "strong", with
    the rationale of the default, and the phase writes "strong" once the
    user confirms. *)
Theorem no_keyword_defaults_to_strong (use_case : string) :
  ascii_text use_case ->
  (forall k, In k (strong_indicators ++ eventual_indicators)%list ->
             ~ occurs_ignoring_case k use_case) ->
  keyword_recommendation use_case
  = ("strong",
     ["When in doubt, default to Strong Consistency.";
      "   You can always relax consistency later if needed."])
  /\ (forall (st : advisor) (rest : script),
        _gather_consistency_requirements st
          (Pick "help" :: Text use_case :: YesNo true :: rest)
        = Done tt (with_consistency_model st "strong") rest).
Proof.
  intros _ Hnone.
  assert (Hs : py_any (map (fun indicator => contains indicator (lower use_case))
                        strong_indicators) = false).
  { apply not_true_is_false. rewrite strong_hit_iff. intros (k & Hin & Hk).
    apply (Hnone k); [apply in_or_app; auto|exact Hk]. }
  assert (He : py_any (map (fun indicator => contains indicator (lower use_case))
                        eventual_indicators) = false).
  { apply not_true_is_false. rewrite eventual_hit_iff. intros (k & Hin & Hk).
    apply (Hnone k); [apply in_or_app; auto|exact Hk]. }
  assert (Hrec : keyword_recommendation use_case
                 = ("strong",
                    ["When in doubt, default to Strong Consistency.";
                     "   You can always relax consistency later if needed."])).
  { unfold keyword_recommendation. rewrite Hs, He. reflexivity. }
  split; [exact Hrec|].
  intros st rest.
  rewrite consistency_phase_help_confirmed, Hrec. reflexivity.
Qed.

(** A text for which both tests fail contains no keyword. *)
Lemma no_indicator_occurs (use_case : string) :
  py_any (map (fun indicator => contains indicator (lower use_case)) strong_indicators)
  = false ->
  py_any (map (fun indicator => contains indicator (lower use_case)) eventual_indicators)
  = false ->
  forall k, In k (strong_indicators ++ eventual_indicators)%list ->
            ~ occurs_ignoring_case k use_case.
Proof.
  intros Hs He k Hin Hk. apply in_app_or in Hin as [Hin|Hin].
  - assert (Hhit : exists k, In k strong_indicators /\ occurs_ignoring_case k use_case)
      by eauto.
    apply strong_hit_iff in Hhit. congruence.
  - assert (Hhit : exists k, In k eventual_indicators /\ occurs_ignoring_case k use_case)
      by eauto.
    apply eventual_hit_iff in Hhit. congruence.
Qed.

Lemma no_keyword_defaults_to_strong_witness :
  ascii_text "nightly batch job"
  /\ keyword_recommendation "nightly batch job"
  = ("strong",
     ["When in doubt, default to Strong Consistency.";
      "   You can always relax consistency later if needed."])
  /\ (forall (st : advisor) (rest : script),
        _gather_consistency_requirements st
          (Pick "help" :: Text "nightly batch job" :: YesNo true :: rest)
        = Done tt (with_consistency_model st "strong") rest).
Proof.
  split; [reflexivity|].
  apply (no_keyword_defaults_to_strong "nightly batch job").
  - reflexivity.
  - apply no_indicator_occurs; reflexivity.
Defined.

(** C5, as stated, fails: in "hello world" no keyword occurs, and the
    recommendation is the value "strong" itself, not a third value. *)
Lemma no_undetermined_value :
  (forall k, In k (strong_indicators ++ eventual_indicators)%list ->
             ~ occurs_ignoring_case k "hello world")
  /\ fst (keyword_recommendation "hello world") = "strong"
  /\ ~ (fst (keyword_recommendation "hello world") <> "strong"
        /\ fst (keyword_recommendation "hello world") <> "eventual").
Proof.
  split; [apply no_indicator_occurs; reflexivity|].
  split; [reflexivity|].
  intros [Hne _]. apply Hne. reflexivity.
Qed.

(** ** What blueprint generation returns *)

Lemma generate_blueprint_mock_same (st1 st2 : advisor) (sc1 sc2 : script) :
  constraints st1 = constraints st2 ->
  exists b,
    _generate_blueprint_mock st1 sc1 =
    Done b (mkAdvisor (constraints st1) (context st1) (slept_ms st1 + 2000)) sc1
    /\ _generate_blueprint_mock st2 sc2 =
       Done b (mkAdvisor (constraints st2) (context st2) (slept_ms st2 + 2000)) sc2.
Proof.
  intro Hc. unfold _generate_blueprint_mock, bind.
  rewrite !repeat_times_sleep. unfold read_constraints, ret.
  cbn [constraints context slept_ms]. rewrite <- Hc.
  eexists. split; reflexivity.
Qed.

(** C1, as stated, fails: from the complete record of scenario A the
    confidences come out as 0.92, 0.95, 0.98, which is not descending. *)
Lemma patterns_not_descending :
  is_complete scenario_a = true
  /\ exists b st',
       _generate_blueprint_mock (advisor_with scenario_a) [] = Done b st' []
       /\ map Pattern.confidence (Blueprint.patterns b)
          = [0.92%float; 0.95%float; 0.98%float]
       /\ ~ descending_confidence (Blueprint.patterns b).
Proof.
  split; [reflexivity|].
  destruct (generate_blueprint_mock_returns (advisor_with scenario_a) [])
    as (b & Hgen & _ & _ & Hpat).
  exists b. eexists. split; [exact Hgen|]. rewrite Hpat.
  split; [reflexivity|].
  intro Hsorted. apply StronglySorted_inv in Hsorted as [_ Hhead].
  apply Forall_inv in Hhead. vm_compute in Hhead. discriminate.
Qed.

(** C1, as the program has it. Generation never sorts: the patterns come out
    in the order of the catalog (outbox, mailbox, telemetry), which is the
    order of strictly increasing confidence, so each pattern's confidence is
    below that of every pattern after it. *)
Theorem patterns_in_catalog_order (st : advisor) (sc : script) :
  exists b st',
    _generate_blueprint_mock st sc = Done b st' sc
    /\ sublist (Blueprint.patterns b) catalog
    /\ ascending_confidence (Blueprint.patterns b).
Proof.
  destruct (generate_blueprint_mock_returns st sc) as (b & Hgen & _ & _ & Hpat).
  exists b. eexists. split; [exact Hgen|]. rewrite Hpat.
  split; [apply appended_sublist|apply appended_ascending].
Qed.

(** C6. Two runs of the generator on equal, complete constraints return the
    same blueprint, whatever else differs between the two advisors and
    whatever answers are pending; its overall confidence is 0.87. *)
Theorem generation_deterministic (st1 st2 : advisor) (sc1 sc2 : script) :
  is_complete (constraints st1) = true ->
  constraints st1 = constraints st2 ->
  exists b st1' st2',
    _generate_blueprint_mock st1 sc1 = Done b st1' sc1
    /\ _generate_blueprint_mock st2 sc2 = Done b st2' sc2
    /\ Blueprint.confidence b = 0.87%float.
Proof.
  intros _ Hc.
  destruct (generate_blueprint_mock_same st1 st2 sc1 sc2 Hc) as (b & H1 & H2).
  destruct (generate_blueprint_mock_returns st1 sc1) as (b' & H1' & _ & Hconf & _).
  rewrite H1 in H1'. injection H1' as <-.
  exists b. do 2 eexists. split; [exact H1|]. split; [exact H2|exact Hconf].
Qed.

Lemma generation_deterministic_witness :
  exists b st1' st2',
    _generate_blueprint_mock (advisor_with scenario_a) [] = Done b st1' []
    /\ _generate_blueprint_mock busy_advisor [Enter; YesNo true] =
       Done b st2' [Enter; YesNo true]
    /\ Blueprint.confidence b = 0.87%float.
Proof.
  exact (generation_deterministic (advisor_with scenario_a) busy_advisor
           [] [Enter; YesNo true] eq_refl eq_refl).
Defined.

(** C7. With a throughput of 2000 and strong consistency the generator
    returns the mailbox pattern, the outbox pattern and the telemetry
    pattern: at least three patterns. *)
Theorem scenario_a_patterns (st : advisor) (sc : script) :
  throughput_tps (constraints st) = 2000 ->
  consistency_model (constraints st) = "strong" ->
  exists b st',
    _generate_blueprint_mock st sc = Done b st' sc
    /\ In actor_mailbox_backpressure (Blueprint.patterns b)
    /\ In transactional_outbox (Blueprint.patterns b)
    /\ In opentelemetry_instrumentation (Blueprint.patterns b)
    /\ (3 <= length (Blueprint.patterns b))%nat.
Proof.
  intros Htps Hcm.
  destruct (generate_blueprint_mock_returns st sc) as (b & Hgen & _ & _ & Hpat).
  exists b. eexists. split; [exact Hgen|]. rewrite Hpat.
  unfold appended. rewrite Htps, Hcm. simpl.
  split; [right; left; reflexivity|].
  split; [left; reflexivity|].
  split; [right; right; left; reflexivity|].
  lia.
Qed.

Lemma scenario_a_patterns_witness :
  exists b st',
    _generate_blueprint_mock (advisor_with scenario_a) [] = Done b st' []
    /\ In actor_mailbox_backpressure (Blueprint.patterns b)
    /\ In transactional_outbox (Blueprint.patterns b)
    /\ In opentelemetry_instrumentation (Blueprint.patterns b)
    /\ (3 <= length (Blueprint.patterns b))%nat.
Proof.
  exact (scenario_a_patterns (advisor_with scenario_a) [] eq_refl eq_refl).
Defined.

(** C8. With a throughput of 100 and eventual consistency the generator
    returns the telemetry pattern alone: no pattern of the list is the
    mailbox pattern or the outbox pattern, by value, by name or by id. *)
Theorem scenario_b_patterns (st : advisor) (sc : script) :
  throughput_tps (constraints st) = 100 ->
  consistency_model (constraints st) = "eventual" ->
  exists b st',
    _generate_blueprint_mock st sc = Done b st' sc
    /\ ~ In actor_mailbox_backpressure (Blueprint.patterns b)
    /\ ~ In transactional_outbox (Blueprint.patterns b)
    /\ (forall p, In p (Blueprint.patterns b) ->
          Pattern.name p <> "Actor Mailbox Backpressure"
          /\ Pattern.name p <> "Transactional Outbox Pattern"
          /\ Pattern.id p <> "pattern-001" /\ Pattern.id p <> "pattern-023").
Proof.
  intros Htps Hcm.
  destruct (generate_blueprint_mock_returns st sc) as (b & Hgen & _ & _ & Hpat).
  exists b. eexists. split; [exact Hgen|]. rewrite Hpat.
  unfold appended. rewrite Htps, Hcm. simpl.
  repeat split; try (intros [Heq|[]]; discriminate Heq);
    destruct H as [<-|[]]; discriminate.
Qed.

Lemma scenario_b_patterns_witness :
  exists b st',
    _generate_blueprint_mock (advisor_with scenario_b) [] = Done b st' []
    /\ ~ In actor_mailbox_backpressure (Blueprint.patterns b)
    /\ ~ In transactional_outbox (Blueprint.patterns b)
    /\ (forall p, In p (Blueprint.patterns b) ->
          Pattern.name p <> "Actor Mailbox Backpressure"
          /\ Pattern.name p <> "Transactional Outbox Pattern"
          /\ Pattern.id p <> "pattern-001" /\ Pattern.id p <> "pattern-023").
Proof.
  exact (scenario_b_patterns (advisor_with scenario_b) [] eq_refl eq_refl).
Defined.

(** ** Generation and completeness *)

(** What the validators guarantee. *)

Lemma valid_service_name_nonempty (text : string) :
  valid_service_name text = true -> text <> "".
Proof.
  unfold valid_service_name. intros H ->. discriminate.
Qed.

Lemma valid_positive_int_positive (text : string) :
  valid_positive_int text = true -> 0 < int text.
Proof.
  unfold valid_positive_int. rewrite andb_true_iff, Z.ltb_lt. tauto.
Qed.

(** C2, as stated, fails: the record of [test_generate_blueprint_mock] is
    incomplete (no latency), and generation returns the three patterns for
    it instead of raising. *)
Lemma incomplete_constraints_accepted :
  is_complete test_constraints = false
  /\ exists b st',
       _generate_blueprint_mock (advisor_with test_constraints) [] = Done b st' []
       /\ Blueprint.patterns b = catalog
       /\ (forall missing st'',
             _generate_blueprint_mock (advisor_with test_constraints) []
             <> Raised (IncompleteConstraintsError missing) st'').
Proof.
  split; [reflexivity|].
  destruct (generate_blueprint_mock_returns (advisor_with test_constraints) [])
    as (b & Hgen & _ & _ & Hpat).
  exists b. eexists. split; [exact Hgen|]. split; [exact Hpat|].
  intros missing st''. rewrite Hgen. discriminate.
Qed.

(** C2, as the program has it. Generation checks nothing and raises nothing:
    from any record, complete or not, it returns a blueprint for the name
    on record, with the telemetry pattern in its list, and leaves the record
    as it was. *)
Theorem generation_checks_nothing (st : advisor) (sc : script) :
  exists b st',
    _generate_blueprint_mock st sc = Done b st' sc
    /\ constraints st' = constraints st
    /\ Blueprint.service_name b = service_name (constraints st)
    /\ In opentelemetry_instrumentation (Blueprint.patterns b).
Proof.
  destruct (generate_blueprint_mock_returns st sc) as (b & Hgen & Hname & _ & Hpat).
  exists b. eexists. split; [exact Hgen|]. split; [reflexivity|].
  split; [exact Hname|]. rewrite Hpat. unfold appended.
  apply in_or_app. right. apply in_or_app. right. left. reflexivity.
Qed.

(** * Further properties of the program *)

(** ** The snapshot *)

Lemma to_dict_lookup (c : ServiceConstraints) (f : field) :
  to_dict c !! key_of f = Some (get_field f c).
Proof. destruct f; reflexivity. Qed.

(** X1. The dict of [to_dict] holds every attribute under its own key, and
    nothing else; so two records with the same dict are the same record. *)
Theorem to_dict_lossless :
  (forall (c : ServiceConstraints) (f : field),
      to_dict c !! key_of f = Some (get_field f c))
  /\ (forall (c : ServiceConstraints) (k : string),
        is_Some (to_dict c !! k) <-> exists f, k = key_of f)
  /\ (forall c1 c2 : ServiceConstraints, to_dict c1 = to_dict c2 -> c1 = c2).
Proof.
  split; [exact to_dict_lookup|split].
  - intros c k. rewrite <- elem_of_dom, to_dict_keys. unfold specified_fields.
    rewrite !list_to_set_cons, list_to_set_nil. rewrite !elem_of_union, !elem_of_singleton.
    split.
    + intros H.
      repeat (destruct H as [H|H]);
        first [ subst k | set_solver ];
        first [ now exists F_service_name | now exists F_service_type
              | now exists F_throughput_tps | now exists F_latency_p99_ms
              | now exists F_consistency_model | now exists F_integrations
              | now exists F_data_volume_gb | now exists F_team_size
              | now exists F_deployment_target ].
    + intros [f ->]. destruct f; simpl; tauto.
  - intros c1 c2 H.
    assert (Hf : forall f, get_field f c1 = get_field f c2).
    { intro f. pose proof (to_dict_lookup c1 f) as H1.
      rewrite H, to_dict_lookup in H1. congruence. }
    pose proof (Hf F_service_name) as H1. pose proof (Hf F_service_type) as H2.
    pose proof (Hf F_throughput_tps) as H3. pose proof (Hf F_latency_p99_ms) as H4.
    pose proof (Hf F_consistency_model) as H5. pose proof (Hf F_integrations) as H6.
    pose proof (Hf F_data_volume_gb) as H7. pose proof (Hf F_team_size) as H8.
    pose proof (Hf F_deployment_target) as H9.
    destruct c1, c2; simpl in *. congruence.
Qed.

Lemma to_dict_lossless_witness :
  to_dict (assign_all ServiceConstraints_init five_assignments)
  = to_dict (assign_all ServiceConstraints_init (rev five_assignments))
  /\ assign_all ServiceConstraints_init five_assignments
     = assign_all ServiceConstraints_init (rev five_assignments).
Proof.
  assert (H : to_dict (assign_all ServiceConstraints_init five_assignments)
              = to_dict (assign_all ServiceConstraints_init (rev five_assignments)))
    by reflexivity.
  exact (conj H (proj2 (proj2 to_dict_lossless) _ _ H)).
Defined.

(** ** The validators *)

Lemma is_alnum_not_separator (ch : ascii) :
  is_alnum ch = true -> Ascii.eqb ch "-" = false /\ Ascii.eqb ch "_" = false.
Proof.
  destruct (Ascii.eqb ch "-") eqn:E1.
  - apply Ascii.eqb_eq in E1. subst. discriminate.
  - destruct (Ascii.eqb ch "_") eqn:E2; [|auto].
    apply Ascii.eqb_eq in E2. subst. discriminate.
Qed.

(** What is left of a name once hyphens and underscores are removed is
    alphanumeric throughout exactly when the name is made of name
    characters. *)
Lemma stripped_all_alnum (text : string) :
  all_chars (fun ch => is_upper ch || is_lower ch || is_digit ch)
    (remove_char "_" (remove_char "-" text))
  = all_chars is_name_char text.
Proof.
  induction text as [|ch text IH]; [reflexivity|].
  simpl. unfold is_name_char at 1, is_alnum.
  destruct (Ascii.eqb ch "-") eqn:E1.
  - rewrite IH, orb_true_r. reflexivity.
  - simpl. destruct (Ascii.eqb ch "_") eqn:E2.
    + rewrite IH, orb_true_r. reflexivity.
    + simpl. rewrite IH, !orb_false_r. reflexivity.
Qed.

(** Something is left exactly when some character is neither a hyphen nor
    an underscore. *)
Lemma stripped_nonempty (text : string) :
  truthy (remove_char "_" (remove_char "-" text)) = true <->
  exists ch, In ch (list_ascii_of_string text)
             /\ Ascii.eqb ch "-" = false /\ Ascii.eqb ch "_" = false.
Proof.
  induction text as [|ch text IH]; simpl.
  - split; [discriminate|]. intros (ch & [] & _).
  - destruct (Ascii.eqb ch "-") eqn:E1; [|simpl; destruct (Ascii.eqb ch "_") eqn:E2].
    + rewrite IH. split.
      * intros (x & Hin & Hx). exists x. auto.
      * intros (x & [<-|Hin] & H1 & H2); [congruence|]. exists x. auto.
    + rewrite IH. split.
      * intros (x & Hin & Hx). exists x. auto.
      * intros (x & [<-|Hin] & H1 & H2); [congruence|]. exists x. auto.
    + simpl. split; [|reflexivity]. intros _. exists ch. auto.
Qed.

Lemma all_chars_forall (pred : ascii -> bool) (text : string) :
  all_chars pred text = true <->
  forall ch, In ch (list_ascii_of_string text) -> pred ch = true.
Proof.
  induction text as [|ch text IH]; simpl.
  - split; [intros _ x []|reflexivity].
  - rewrite andb_true_iff, IH. split.
    + intros [Hch Hall] x [<-|Hin]; auto.
    + intros H. split; [apply H; auto|]. intros x Hin. apply H. auto.
Qed.

(** X2. Among ASCII texts, the name validator accepts exactly those made of
    letters, digits, hyphens and underscores that contain at least one
    letter or digit: the empty text, and a text of hyphens and underscores
    alone, are refused. *)
Theorem valid_service_name_iff (text : string) :
  ascii_text text ->
  (valid_service_name text = true <->
   (forall ch, In ch (list_ascii_of_string text) -> is_name_char ch = true)
   /\ (exists ch, In ch (list_ascii_of_string text) /\ is_alnum ch = true)).
Proof.
  intros _. unfold valid_service_name, isalnum.
  rewrite !andb_true_iff, stripped_all_alnum, stripped_nonempty, all_chars_forall,
    Z.ltb_lt.
  split.
  - intros (_ & (ch & Hin & H1 & H2) & Hall). split; [exact Hall|].
    exists ch. split; [exact Hin|].
    specialize (Hall ch Hin). unfold is_name_char in Hall.
    rewrite H1, H2, !orb_false_r in Hall. exact Hall.
  - intros (Hall & ch & Hin & Hch). split; [|split; [|exact Hall]].
    + destruct text; [destruct Hin|]. simpl. lia.
    + exists ch. split; [exact Hin|]. apply is_alnum_not_separator. exact Hch.
Qed.

Lemma valid_service_name_iff_witness :
  ascii_text "ledger_v2"
  /\ (valid_service_name "ledger_v2" = true <->
      (forall ch, In ch (list_ascii_of_string "ledger_v2") -> is_name_char ch = true)
      /\ (exists ch, In ch (list_ascii_of_string "ledger_v2")
                     /\ is_alnum ch = true)).
Proof.
  split; [reflexivity|].
  apply (valid_service_name_iff "ledger_v2"). reflexivity.
Defined.

(** A digit is worth between 0 and 9, and 0 only for the character 0. *)
Lemma digit_value (ch : ascii) :
  is_digit ch = true ->
  0 <= Z.of_N (N_of_ascii ch) - 48 <= 9
  /\ (Z.of_N (N_of_ascii ch) - 48 = 0 <-> Ascii.eqb "0" ch = true).
Proof.
  unfold is_digit. cbv zeta. rewrite andb_true_iff, !N.leb_le. intros [Hlo Hhi].
  split; [lia|]. rewrite Ascii.eqb_eq. split.
  - intro H. assert (Hn : N_of_ascii ch = 48%N) by lia.
    rewrite <- (ascii_N_embedding ch), Hn. reflexivity.
  - intros <-. reflexivity.
Qed.

Lemma int_acc_digits (text : string) (acc : Z) :
  all_chars is_digit text = true -> 0 <= acc ->
  acc <= int_acc acc text
  /\ (int_acc acc text = 0 <-> acc = 0 /\ all_chars (Ascii.eqb "0") text = true).
Proof.
  revert acc. induction text as [|ch text IH]; intros acc Hall Hacc; simpl.
  - split; [lia|]. tauto.
  - simpl in Hall. apply andb_true_iff in Hall as [Hch Hall].
    destruct (digit_value ch Hch) as [Hrange Hzero].
    destruct (IH (10 * acc + (Z.of_N (N_of_ascii ch) - 48)) Hall ltac:(lia))
      as [Hle Hiff].
    split; [lia|]. rewrite Hiff, andb_true_iff, <- Hzero. split.
    + intros [H1 H2]. repeat split; [lia|lia|exact H2].
    + intros (H1 & H2 & H3). split; [lia|exact H3].
Qed.

(** X3. Among ASCII texts short enough for [int] to convert, the number
    validator accepts exactly the non-empty texts of decimal digits that
    are not all zeros (leading zeros are allowed), and the number read from
    an accepted text is at least 1. *)
Theorem valid_positive_int_iff (text : string) :
  ascii_text text ->
  (String.length text <= max_str_digits)%nat ->
  (valid_positive_int text = true <->
   isdigit text = true /\ all_chars (Ascii.eqb "0") text = false)
  /\ (valid_positive_int text = true -> 1 <= int text).
Proof.
  intros _ _. unfold valid_positive_int. rewrite andb_true_iff, Z.ltb_lt.
  split; [|lia].
  split.
  - intros [Hd Hpos]. split; [exact Hd|].
    unfold isdigit in Hd. apply andb_true_iff in Hd as [_ Hall].
    destruct (int_acc_digits text 0 Hall ltac:(lia)) as [_ Hiff].
    apply not_true_is_false. intro Hz. unfold int in Hpos.
    assert (int_acc 0 text = 0) by (apply Hiff; auto). lia.
  - intros [Hd Hnz]. split; [exact Hd|].
    unfold isdigit in Hd. apply andb_true_iff in Hd as [_ Hall].
    destruct (int_acc_digits text 0 Hall ltac:(lia)) as [Hle Hiff].
    unfold int. destruct (Z.eq_dec (int_acc 0 text) 0) as [E|E]; [|lia].
    apply Hiff in E as [_ E]. congruence.
Qed.

Lemma valid_positive_int_iff_witness :
  ascii_text "0800"
  /\ (String.length "0800" <= max_str_digits)%nat
  /\ (valid_positive_int "0800" = true <->
      isdigit "0800" = true /\ all_chars (Ascii.eqb "0") "0800" = false)
  /\ (valid_positive_int "0800" = true -> 1 <= int "0800").
Proof.
  assert (Hlen : (String.length "0800" <= max_str_digits)%nat)
    by (unfold max_str_digits; simpl; lia).
  split; [reflexivity|]. split; [exact Hlen|].
  exact (valid_positive_int_iff "0800" eq_refl Hlen).
Defined.

(** ** The keyword branch, in full *)

(** X4. For an ASCII text, the recommendation is "eventual" exactly when a
    keyword of the eventual list occurs in the text and no keyword of the
    strong list does; in every other case it is "strong". The rationale
    printed is that of the branch taken. *)
Theorem keyword_recommendation_cases (use_case : string) :
  ascii_text use_case ->
  (fst (keyword_recommendation use_case) = "eventual" <->
   (exists ke, In ke eventual_indicators /\ occurs_ignoring_case ke use_case)
   /\ ~ (exists ks, In ks strong_indicators /\ occurs_ignoring_case ks use_case))
  /\ (fst (keyword_recommendation use_case) = "strong" <->
      (exists ks, In ks strong_indicators /\ occurs_ignoring_case ks use_case)
      \/ ~ (exists ke, In ke eventual_indicators /\ occurs_ignoring_case ke use_case))
  /\ ((exists ks, In ks strong_indicators /\ occurs_ignoring_case ks use_case) ->
      snd (keyword_recommendation use_case)
      = ["Based on your use case, I recommend Strong Consistency.";
         "   Keywords detected: financial/transactional domain"]).
Proof.
  intros _.
  rewrite <- strong_hit_iff, <- eventual_hit_iff. unfold keyword_recommendation.
  destruct (py_any (map _ strong_indicators)) eqn:Hs;
    destruct (py_any (map _ eventual_indicators)) eqn:He; simpl;
    repeat split; intros; try discriminate; try reflexivity; try tauto;
    intuition discriminate.
Qed.

Lemma keyword_recommendation_cases_witness :
  ascii_text "a Feed of page views"
  /\ fst (keyword_recommendation "a Feed of page views") = "eventual"
  /\ (exists ke, In ke eventual_indicators
                 /\ occurs_ignoring_case ke "a Feed of page views")
  /\ ~ (exists ks, In ks strong_indicators
                   /\ occurs_ignoring_case ks "a Feed of page views").
Proof.
  assert (Hascii : ascii_text "a Feed of page views") by reflexivity.
  assert (Hrec : fst (keyword_recommendation "a Feed of page views") = "eventual")
    by reflexivity.
  split; [exact Hascii|]. split; [exact Hrec|].
  exact (proj1 (proj1 (keyword_recommendation_cases "a Feed of page views" Hascii))
           Hrec).
Defined.

Lemma lower_char_idempotent (ch : ascii) : lower_char (lower_char ch) = lower_char ch.
Proof. destruct ch as [[] [] [] [] [] [] [] []]; reflexivity. Qed.

Lemma lower_idempotent (s : string) : lower (lower s) = lower s.
Proof.
  induction s as [|ch s IH]; simpl; [reflexivity|].
  rewrite lower_char_idempotent, IH. reflexivity.
Qed.

(** X16. The recommendation and its rationale do not depend on the case of
    the letters of the text: two texts with the same lower-case form are
    treated alike, and a text is treated like its lower-case form. *)
Theorem keyword_recommendation_ignores_case :
  (forall use_case use_case' : string,
      lower use_case = lower use_case' ->
      keyword_recommendation use_case = keyword_recommendation use_case')
  /\ (forall use_case : string,
        keyword_recommendation (lower use_case) = keyword_recommendation use_case).
Proof.
  assert (H : forall use_case use_case' : string,
             lower use_case = lower use_case' ->
             keyword_recommendation use_case = keyword_recommendation use_case').
  { intros u u' Heq. unfold keyword_recommendation. rewrite Heq. reflexivity. }
  split; [exact H|].
  intro u. apply H. apply lower_idempotent.
Qed.

Lemma keyword_recommendation_ignores_case_witness :
  keyword_recommendation "Order HISTORY" = keyword_recommendation "order history".
Proof.
  exact (proj1 keyword_recommendation_ignores_case
           "Order HISTORY" "order history" eq_refl).
Defined.

(** ** Generation, in full *)

Lemma catalog_distinct :
  transactional_outbox <> actor_mailbox_backpressure
  /\ transactional_outbox <> opentelemetry_instrumentation
  /\ actor_mailbox_backpressure <> opentelemetry_instrumentation.
Proof.
  repeat split; intro H; apply (f_equal Pattern.id) in H; vm_compute in H;
    discriminate H.
Qed.

Lemma appended_cases (c : ServiceConstraints) :
  appended c =
  (if String.eqb (consistency_model c) "strong"
   then if 1000 <? throughput_tps c then catalog
        else [transactional_outbox; opentelemetry_instrumentation]
   else if 1000 <? throughput_tps c
        then [actor_mailbox_backpressure; opentelemetry_instrumentation]
        else [opentelemetry_instrumentation]).
Proof.
  unfold appended. destruct (String.eqb _ _), (1000 <? _); reflexivity.
Qed.

(** X5. A pattern is in the generated list exactly when its condition
    holds: the outbox pattern when the consistency model is the string
    "strong", the mailbox pattern when the throughput exceeds 1000 (1000
    itself does not count), the telemetry pattern always and in the last
    place; no pattern is listed twice. *)
Theorem pattern_inclusion (st : advisor) (sc : script) :
  exists b st',
    _generate_blueprint_mock st sc = Done b st' sc
    /\ (In transactional_outbox (Blueprint.patterns b) <->
        consistency_model (constraints st) = "strong")
    /\ (In actor_mailbox_backpressure (Blueprint.patterns b) <->
        1000 < throughput_tps (constraints st))
    /\ last (Blueprint.patterns b) = Some opentelemetry_instrumentation
    /\ NoDup (Blueprint.patterns b)
    /\ (forall p, In p (Blueprint.patterns b) -> In p catalog).
Proof.
  destruct (generate_blueprint_mock_returns st sc) as (b & Hgen & _ & _ & Hpat).
  destruct catalog_distinct as (Hoa & Hot & Hat).
  exists b. eexists. split; [exact Hgen|]. rewrite Hpat, appended_cases.
  rewrite <- String.eqb_eq, <- Z.ltb_lt. unfold catalog.
  destruct (String.eqb _ _), (1000 <? _).
  - split; [simpl; tauto|]. split; [simpl; tauto|]. split; [reflexivity|].
    split; [|auto].
    apply NoDup_cons. split; [|apply NoDup_cons; split; [|apply NoDup_singleton]].
    + rewrite !elem_of_cons, elem_of_nil. intros [H|[H|[]]]; congruence.
    + rewrite elem_of_cons, elem_of_nil. intros [H|[]]; congruence.
  - split; [simpl; tauto|].
    split; [split; [intros [H|[H|[]]]; congruence|discriminate]|].
    split; [reflexivity|]. split.
    + apply NoDup_cons. split; [|apply NoDup_singleton].
      rewrite elem_of_cons, elem_of_nil. intros [H|[]]; congruence.
    + intros p [<-|[<-|[]]]; simpl; tauto.
  - split; [split; [intros [H|[H|[]]]; congruence|discriminate]|].
    split; [simpl; tauto|]. split; [reflexivity|]. split.
    + apply NoDup_cons. split; [|apply NoDup_singleton].
      rewrite elem_of_cons, elem_of_nil. intros [H|[]]; congruence.
    + intros p [<-|[<-|[]]]; simpl; tauto.
  - split; [split; [intros [H|[]]; congruence|discriminate]|].
    split; [split; [intros [H|[]]; congruence|discriminate]|].
    split; [reflexivity|]. split; [apply NoDup_singleton|].
    intros p [<-|[]]; simpl; tauto.
Qed.

(** X6. Generation reads no answer, leaves the constraints and the context
    as they were and sleeps for two seconds in all; the blueprint carries
    the name on record, and its four artifacts are fixed except for the
    proto path, which embeds that name. *)
Theorem generation_effects (st : advisor) (sc : script) :
  exists b,
    _generate_blueprint_mock st sc
    = Done b (mkAdvisor (constraints st) (context st) (slept_ms st + 2000)) sc
    /\ Blueprint.service_name b = service_name (constraints st)
    /\ Blueprint.artifacts b
       = [ Artifact.mk "proto"
             ("proto/" ++ service_name (constraints st) ++ "/v1/service.proto");
           Artifact.mk "sql" "db/schema.sql";
           Artifact.mk "kubernetes" "deploy/k8s/deployment.yaml";
           Artifact.mk "markdown" "docs/ARCHITECTURE.md" ].
Proof.
  unfold _generate_blueprint_mock, bind. rewrite repeat_times_sleep.
  unfold read_constraints, ret. cbn [constraints context slept_ms].
  eexists. split; [reflexivity|]. split; reflexivity.
Qed.

(** ** The phases, outcome by outcome *)

(** X8. Whenever the performance phase returns, the throughput and the
    latency it has recorded are positive and nothing else has changed. *)
Theorem performance_requirements_outcomes (st : advisor) (sc : script) :
  match _gather_performance_requirements st sc with
  | Done _ st' _ =>
      exists throughput latency,
        0 < throughput /\ 0 < latency
        /\ st' = after_write (after_write st (Set_throughput_tps throughput))
                   (Set_latency_p99_ms latency)
  | Raised _ _ => True
  end.
Proof.
  unfold _gather_performance_requirements, bind, ask, write, read_constraints.
  cbv zeta.
  destruct (text_ask _ _ sc) as [[throughput_str r1]|] eqn:H1; [|exact I].
  apply text_ask_valid, valid_positive_int_positive in H1.
  destruct (text_ask _ _ r1) as [[latency_str r2]|] eqn:H2; [|exact I].
  apply text_ask_valid, valid_positive_int_positive in H2.
  exists (int throughput_str), (int latency_str). auto.
Qed.

(** X9. The throughput offered by default follows the service type: a user
    who accepts both defaults of the performance phase gets 1000 for an api,
    500 for an event processor and 100 for any other type, with a latency
    of 100. *)
Theorem performance_defaults (st : advisor) (rest : script) :
  exists throughput,
    _gather_performance_requirements st (Enter :: Enter :: rest)
    = Done tt (after_write (after_write st (Set_throughput_tps throughput))
                 (Set_latency_p99_ms 100)) rest
    /\ (service_type (constraints st) = "api" -> throughput = 1000)
    /\ (service_type (constraints st) = "event_processor" -> throughput = 500)
    /\ (service_type (constraints st) <> "api" ->
        service_type (constraints st) <> "event_processor" -> throughput = 100).
Proof.
  unfold _gather_performance_requirements, bind, ask, write, read_constraints.
  cbv zeta.
  destruct (String.eqb (service_type (constraints st)) "api") eqn:E1.
  - apply String.eqb_eq in E1. exists 1000. split; [reflexivity|].
    rewrite E1. repeat split; intros; congruence.
  - apply String.eqb_neq in E1.
    destruct (String.eqb (service_type (constraints st)) "event_processor") eqn:E2.
    + apply String.eqb_eq in E2. exists 500. split; [reflexivity|].
      rewrite E2. repeat split; intros; congruence.
    + apply String.eqb_neq in E2. exists 100. split; [reflexivity|].
      repeat split; intros; congruence.
Qed.

Lemma filter_sublist {A : Type} (f : A -> bool) (l : list A) :
  sublist (List.filter f l) l.
Proof.
  induction l as [|x l IH]; simpl; [constructor|].
  destruct (f x); [apply sublist_skip|apply sublist_cons]; exact IH.
Qed.

Lemma checkbox_ask_sublist (choices : list string) (sc : script)
    (vs : list string) (rest : script) :
  checkbox_ask choices sc = Some (vs, rest) -> sublist vs choices.
Proof.
  induction sc as [|a sc IH]; simpl; [discriminate|].
  destruct a as [|t|w|ws|b]; try exact IH.
  - intro H. injection H as <- _. apply sublist_nil_l.
  - intro H. injection H as <- _. apply filter_sublist.
Qed.

Lemma filter_sublist_mono {A : Type} (f : A -> bool) (l k : list A) :
  sublist l k -> sublist (List.filter f l) (List.filter f k).
Proof.
  induction 1 as [|x l k Hlk IH|x l k Hlk IH]; simpl.
  - constructor.
  - destruct (f x); [apply sublist_skip|]; exact IH.
  - destruct (f x); [apply sublist_cons|]; exact IH.
Qed.

(** X10. Whenever the integration phase returns, the integrations recorded
    are some of the seven real integrations, in the order of the checkbox,
    each at most once: the "none" entry is never recorded. Nothing else has
    changed. *)
Theorem integration_requirements_outcomes (st : advisor) (sc : script) :
  match _gather_integration_requirements st sc with
  | Done _ st' _ =>
      exists chosen,
        st' = after_write st (Set_integrations chosen)
        /\ sublist chosen real_integrations
        /\ NoDup chosen
        /\ ~ In "none" chosen
  | Raised _ _ => True
  end.
Proof.
  unfold _gather_integration_requirements, bind, ask, write.
  destruct (checkbox_ask _ sc) as [[selected r1]|] eqn:H1; [|exact I].
  apply checkbox_ask_sublist in H1.
  eexists. split; [reflexivity|].
  assert (Hsub : sublist
                   (List.filter (fun s => negb (String.eqb s "none")) selected)
                   real_integrations).
  { apply (filter_sublist_mono (fun s => negb (String.eqb s "none"))) in H1.
    exact H1. }
  split; [exact Hsub|]. split.
  - refine (sublist_NoDup _ real_integrations _ Hsub).
    apply (bool_decide_unpack _). vm_compute. exact I.
  - intro Hin. apply List.filter_In in Hin as [_ Hne]. discriminate Hne.
Qed.

(** X11. Whenever the team phase returns, the team size it has recorded is
    positive and nothing else has changed; the size is 3 when the default
    is accepted. *)
Theorem team_context_outcomes :
  (forall (st : advisor) (sc : script),
      match _gather_team_context st sc with
      | Done _ st' _ =>
          exists size, 0 < size /\ st' = after_write st (Set_team_size size)
      | Raised _ _ => True
      end)
  /\ (forall (st : advisor) (rest : script),
        _gather_team_context st (Enter :: rest)
        = Done tt (after_write st (Set_team_size 3)) rest).
Proof.
  split; [|reflexivity].
  intros st sc. unfold _gather_team_context, bind, ask, write.
  destruct (text_ask _ _ sc) as [[team_size_str r1]|] eqn:H1; [|exact I].
  apply text_ask_valid, valid_positive_int_positive in H1.
  exists (int team_size_str). auto.
Qed.

(** X17. On each path of the consistency phase in which every prompt is
    answered, the phase returns having written "strong" or "eventual" and
    changed nothing else: the model chosen directly; after "help", the
    recommendation of the keyword branch when it is confirmed; after "help"
    and a rejected recommendation, the model chosen by hand. *)
Theorem consistency_phase_answered :
  (forall (st : advisor) (v : string) (rest : script),
      v = "strong" \/ v = "eventual" ->
      _gather_consistency_requirements st (Pick v :: rest)
      = Done tt (with_consistency_model st v) rest)
  /\ (forall (st : advisor) (use_case : string) (rest : script),
        exists v,
          (v = "strong" \/ v = "eventual")
          /\ _gather_consistency_requirements st
               (Pick "help" :: Text use_case :: YesNo true :: rest)
             = Done tt (with_consistency_model st v) rest)
  /\ (forall (st : advisor) (use_case v : string) (rest : script),
        v = "strong" \/ v = "eventual" ->
        _gather_consistency_requirements st
          (Pick "help" :: Text use_case :: YesNo false :: Pick v :: rest)
        = Done tt (with_consistency_model st v) rest).
Proof.
  split; [exact consistency_phase_direct|split].
  - intros st use_case rest. exists (fst (keyword_recommendation use_case)).
    split; [apply keyword_recommendation_binary|].
    apply consistency_phase_help_confirmed.
  - exact consistency_phase_help_rejected.
Qed.

Lemma consistency_phase_answered_witness :
  _gather_consistency_requirements InteractiveAdvisor_init
    [Pick "help"; Text "a feed of views"; YesNo false; Pick "strong"; Enter]
  = Done tt (with_consistency_model InteractiveAdvisor_init "strong") [Enter].
Proof.
  exact (proj2 (proj2 consistency_phase_answered)
           InteractiveAdvisor_init "a feed of views" "strong" [Enter]
           (or_introl eq_refl)).
Defined.

(** ** Sessions *)

Lemma bind_cases {A B : Type} (m : M A) (k : A -> M B) (st : advisor) (sc : script) :
  bind m k st sc =
  match m st sc with
  | Done a st' rest => k a st' rest
  | Raised e st' => Raised e st'
  end.
Proof. reflexivity. Qed.

Lemma text_ask_accept (default : string) (validate : string -> bool)
    (s : string) (rest : script) :
  validate s = true -> text_ask default validate (Text s :: rest) = Some (s, rest).
Proof. intro H. simpl. rewrite H. reflexivity. Qed.

Lemma select_ask_accept (choices : list string) (v : string) (rest : script) :
  In v choices -> select_ask choices (Pick v :: rest) = Some (v, rest).
Proof. intro H. simpl. apply mem_In in H. rewrite H. reflexivity. Qed.

(** X14. The name given with [--service-name] does not survive the first
    question: once the name prompt is answered, the session runs exactly as
    it would have without the option. The [resume] flag changes nothing
    either. *)
Theorem command_line_name_overwritten
    (given text : string) (resume resume' : bool) (sc rest : script) :
  text_ask "" valid_service_name sc = Some (text, rest) ->
  init (Some given) resume sc = init None resume' sc.
Proof.
  intro Hask. unfold init. cbv zeta. destruct (truthy given); [|reflexivity].
  unfold run, conversation.
  rewrite !(bind_cases _gather_basic_identity).
  unfold _gather_basic_identity.
  rewrite !(bind_cases (ask (text_ask "" valid_service_name))).
  unfold ask at 1 3. rewrite Hask. reflexivity.
Qed.

Lemma command_line_name_overwritten_witness :
  init (Some "draft") true happy_script = init None false happy_script.
Proof.
  exact (command_line_name_overwritten "draft" "inventory-manager" true false
           happy_script (tl happy_script) eq_refl).
Defined.


